(** * A shallow embedding of the go_cache package (cache.go)

    The package keeps a [map[string]Item] behind a [sync.RWMutex].  The
    embedding below follows the Go code function by function:
    - [time.Duration] and [UnixNano] timestamps are signed 64-bit integers,
      modelled as [Z] with the two's-complement wrap-around written out;
    - the clock [time.Now().UnixNano()] is an explicit argument [now] of every
      operation that reads it (one reading per call);
    - the [RWMutex] is an explicit record (writer flag, reader count); an
      attempt to take a lock that is not available yields [Blocked]: the
      calling goroutine waits on the lock in the state it was reached in;
    - the [interface{}] payload is a small inductive of dynamic values
      ([VNil] is Go's [nil] interface, [VNamed] a value of any other type);
    - gob's global type registry is an explicit argument of [Save]. *)

From stdpp Require Import base gmap strings list fin_maps pretty.

Local Open Scope Z_scope.

(** ** Signed 64-bit arithmetic *)

Definition int64_min : Z := - 2 ^ 63.
Definition int64_max : Z := 2 ^ 63 - 1.

(** Reduction of an exact integer to the int64 it wraps to. *)
Definition wrap64 (z : Z) : Z :=
  let m := z mod 2 ^ 64 in
  if Z.ltb m (2 ^ 63) then m else m - 2 ^ 64.

(** ** Values, items, durations *)

(** A Go type other than [int] and [string], as far as [gob.Register] sees
    it: [ty_user] identifies the type, [ty_base] the type left after its
    pointer indirections are removed (gob's [userType(rt).base]), and
    [ty_name] the name [Register] computes for it ([rt.String()], or
    ["*"] and the package path and name of a named type behind a pointer). *)
Record GoType := mkGoType { ty_user : positive; ty_base : positive; ty_name : string }.

Global Instance GoType_eq_dec : EqDecision GoType.
Proof. solve_decision. Defined.

Inductive Value :=
| VNil
| VInt (n : Z)
| VStr (s : string)
| VNamed (t : GoType) (n : Z).

Global Instance Value_eq_dec : EqDecision Value.
Proof. solve_decision. Defined.

(** [type Item struct { Object interface{}; Expiration int64 }] *)
Record Item := mkItem { Object : Value; Expiration : Z }.

Global Instance Item_eq_dec : EqDecision Item.
Proof.
  intros [o1 e1] [o2 e2].
  destruct (decide (o1 = o2)); destruct (decide (e1 = e2)); subst;
    [left; reflexivity | right; congruence..].
Defined.

(** [func (item Item) Expired() bool] *)
Definition Expired (item : Item) (now : Z) : bool :=
  if Z.eqb (Expiration item) 0 then false
  else Z.ltb (Expiration item) now.

(** [NoExpiration time.Duration = -1], [DefaultExpiration time.Duration = 0] *)
Definition NoExpiration : Z := -1.
Definition DefaultExpiration : Z := 0.

(** ** The mutex *)

(** [sync.RWMutex]: a writer flag and the number of readers. *)
Record RWMutex := mkRWMutex { writer : bool; readers : nat }.

Definition unlocked : RWMutex := mkRWMutex false 0%nat.

(** ** The cache *)

Record Cache := mkCache {
  defaultExpiration : Z;
  items : gmap string Item;
  mu : RWMutex;
  gcInterval : Z
}.

Definition with_items (c : Cache) (m : gmap string Item) : Cache :=
  mkCache (defaultExpiration c) m (mu c) (gcInterval c).

Definition with_mu (c : Cache) (l : RWMutex) : Cache :=
  mkCache (defaultExpiration c) (items c) l (gcInterval c).

(** ** A state monad over the cache with blocking on the lock *)

Inductive Outcome (A : Type) :=
| Done (a : A) (c : Cache)
| Blocked (c : Cache).
Arguments Done {A} a c.
Arguments Blocked {A} c.

Definition M (A : Type) : Type := Cache -> Outcome A.

Definition ret {A} (a : A) : M A := fun c => Done a c.

Definition bind {A B} (m : M A) (k : A -> M B) : M B :=
  fun c => match m c with
           | Done a c' => k a c'
           | Blocked c' => Blocked c'
           end.

Notation "'do' x <- m ; k" := (bind m (fun x => k))
  (at level 60, x name, m at next level, right associativity).

Definition gets {A} (f : Cache -> A) : M A := fun c => Done (f c) c.
Definition modify (f : Cache -> Cache) : M unit := fun c => Done tt (f c).

(** [c.mu.Lock()]: waits while a writer or a reader holds the mutex. *)
Definition Lock : M unit :=
  fun c => let l := mu c in
           if writer l || negb (Nat.eqb (readers l) 0%nat) then Blocked c
           else Done tt (with_mu c (mkRWMutex true 0%nat)).

(** [c.mu.Unlock()] *)
Definition Unlock : M unit :=
  modify (fun c => with_mu c (mkRWMutex false (readers (mu c)))).

(** [c.mu.RLock()]: waits while a writer holds the mutex. *)
Definition RLock : M unit :=
  fun c => let l := mu c in
           if writer l then Blocked c
           else Done tt (with_mu c (mkRWMutex false (S (readers l)))).

(** [c.mu.RUnlock()] *)
Definition RUnlock : M unit :=
  modify (fun c => with_mu c (mkRWMutex (writer (mu c)) (pred (readers (mu c))))).

(** ** Errors returned by the cache *)

Inductive GoError :=
| ErrItemExists (k : string)      (** "item %s already exists" *)
| ErrItemMissing (k : string)     (** "Item %s doesn`t exist" *)
| ErrRegister                     (** recovered panic of gob.Register *)
| ErrEncode                       (** error of enc.Encode *)
| ErrDecode                       (** error of dec.Decode *)
| ErrOpen (path : string)         (** error of os.Create / os.Open *)
| ErrClose (path : string).       (** error of f.Close *)

(** ** Cache operations *)

(** [func (c *Cache) delete(k string)] *)
Definition delete_ (k : string) : M unit :=
  modify (fun c => with_items c (delete k (items c))).

(** [func (c *Cache) DeleteExpired()]: the [range] loop visits the entries of
    the map in some order; deleting the entry being visited is allowed. *)
Definition DeleteExpired_step (now : Z) (m : gmap string Item)
    (kv : string * Item) : gmap string Item :=
  let '(k, v) := kv in
  if Z.ltb 0 (Expiration v) && Z.ltb (Expiration v) now then delete k m else m.

Definition DeleteExpired (now : Z) : M unit :=
  do _ <- Lock;
  do _ <- modify (fun c => with_items c
                 (fold_left (DeleteExpired_step now) (map_to_list (items c)) (items c)));
  Unlock.

(** [func (c *Cache) Set(k string, v interface{}, d time.Duration)]:
    [time.Now().Add(d).UnixNano()] is [now + d] computed in int64. *)
Definition Set_expiration (defexp d now : Z) : Z :=
  let d := if Z.eqb d DefaultExpiration then defexp else d in
  if Z.ltb 0 d then wrap64 (now + d) else 0.

Definition Set_ (k : string) (v : Value) (d : Z) (now : Z) : M unit :=
  do e <- gets (fun c => Set_expiration (defaultExpiration c) d now);
  do _ <- Lock;
  do _ <- modify (fun c => with_items c (<[k := mkItem v e]> (items c)));
  Unlock.

(** [func (c *Cache) get(k string) (interface{}, bool)]: no locking. *)
Definition get_ (k : string) (now : Z) (c : Cache) : Value * bool :=
  match items c !! k with
  | None => (VNil, false)
  | Some item => if Expired item now then (VNil, false) else (Object item, true)
  end.

(** [func (c *Cache) Add(k string, v interface{}, d time.Duration) error] *)
Definition Add (k : string) (v : Value) (d : Z) (now : Z) : M (option GoError) :=
  do _ <- Lock;
  do r <- gets (get_ k now);
  if snd r then
    do _ <- Unlock; ret (Some (ErrItemExists k))
  else
    do _ <- Set_ k v d now;
    do _ <- Unlock;
    ret None.

(** [func (c *Cache) Get(k string) (interface{}, bool)] *)
Definition Get (k : string) (now : Z) : M (Value * bool) :=
  do _ <- RLock;
  do r <- gets (fun c => match items c !! k with
                         | None => (VNil, false)
                         | Some item =>
                             if Expired item now then (VNil, false)
                             else (Object item, true)
                         end);
  do _ <- RUnlock;
  ret r.

(** [func (c *Cache) Replace(k string, v interface{}, d time.Duration) error] *)
Definition Replace (k : string) (v : Value) (d : Z) (now : Z) : M (option GoError) :=
  do _ <- Lock;
  do r <- gets (get_ k now);
  if negb (snd r) then
    do _ <- Unlock; ret (Some (ErrItemMissing k))
  else
    do _ <- Set_ k v d now;
    do _ <- Unlock;
    ret None.

(** [func (c *Cache) Delete(k string)] *)
Definition Delete (k : string) : M unit :=
  do _ <- Lock; do _ <- delete_ k; Unlock.

(** [func (c *Cache) Count() int] *)
Definition Count : M nat :=
  do _ <- RLock;
  do n <- gets (fun c => size (items c));
  do _ <- RUnlock;
  ret n.

(** [func (c *Cache) Flush()] *)
Definition Flush : M unit :=
  do _ <- Lock; do _ <- modify (fun c => with_items c ∅); Unlock.

(** [func NewCache(defaultExpiration, gcInterval time.Duration) *Cache]; the
    gc goroutine it starts is not part of this embedding. *)
Definition NewCache (defexp gcint : Z) : Cache :=
  mkCache defexp ∅ unlocked gcint.

(** ** The gob codec and the file wrappers *)

(** gob's global type registry: [nameToConcreteType] and
    [concreteTypeToName] (the latter keyed by the base type). *)
Record Registry := mkRegistry {
  nameToConcreteType : gmap string positive;
  concreteTypeToName : gmap positive string }.

(** [func RegisterName(name string, value any)] for a value of type [t]:
    [None] is a panic.  Each [LoadOrStore] stores the pair when the key is
    absent and otherwise keeps the stored value, which the check requires to
    be the one given, so inserting the given pair is the same. *)
Definition RegisterName (reg : Registry) (name : string) (t : GoType) : option Registry :=
  if decide (name = ""%string) then None
  else if decide (default (ty_user t) (nameToConcreteType reg !! name) <> ty_user t)
  then None
  else if decide (default name (concreteTypeToName reg !! ty_base t) <> name)
  then None
  else Some (mkRegistry (<[name := ty_user t]> (nameToConcreteType reg))
                        (<[ty_base t := name]> (concreteTypeToName reg))).

(** [func Register(value any)]: [reflect.TypeOf(nil)] is [nil] and
    [rt.String()] panics on it; [int] and [string] are registered under
    their own names by gob's [registerBasics] at init, so registering them
    again checks and stores nothing new; any other type is registered under
    the name [Register] computes for it. *)
Definition gob_Register (reg : Registry) (v : Value) : option Registry :=
  match v with
  | VNil => None
  | VInt _ | VStr _ => Some reg
  | VNamed t _ => RegisterName reg (ty_name t) t
  end.

(** The loop [for _, v := range c.items { gob.Register(v.Object) }]; the
    first panic ends it. *)
Fixpoint gob_Register_all (reg : Registry) (vs : list Value) : option Registry :=
  match vs with
  | [] => Some reg
  | v :: vs' =>
      match gob_Register reg v with
      | Some reg' => gob_Register_all reg' vs'
      | None => None
      end
  end.

(** A registry holding no type besides gob's basic ones. *)
Definition no_named_types : Registry := mkRegistry ∅ ∅.

Section CodecDefs.
(** The byte stream written by [gob.Encoder] and read by [gob.Decoder],
    the encoding of a [map[string]Item] (fails on values gob cannot
    encode), and its decoding (fails on malformed streams). *)
Context {Stream : Type}.
Variable empty_stream : Stream.
Variable gob_encode : gmap string Item -> option Stream.
Variable gob_decode : Stream -> option (gmap string Item).
(** gob's type registry when [Save] is called.  The entries [Save] adds to
    it are not part of its result. *)
Variable gob_registry : Registry.

(** [func (c *Cache) Save(w io.Writer) (err error)]: the result pairs the
    returned error with the stream written to [w] on success.  A panic of
    [gob.Register] runs the deferred [RUnlock] and then the deferred
    [recover], which turns it into an error. *)
Definition Save : M (option GoError * option Stream) :=
  do _ <- RLock;
  do r <- gets (fun c =>
    match gob_Register_all gob_registry
            ((fun kv : string * Item => Object kv.2) <$> map_to_list (items c)) with
    | Some _ => match gob_encode (items c) with
                | Some s => (None, Some s)
                | None => (Some ErrEncode, None)
                end
    | None => (Some ErrRegister, None)
    end);
  do _ <- RUnlock;
  ret r.

(** One iteration of the merge loop of [Load]:
    [ov, found := c.items[k]; if !found || ov.Expired() { c.items[k] = v }] *)
Definition Load_step (now : Z) (m : gmap string Item) (kv : string * Item)
    : gmap string Item :=
  let '(k, v) := kv in
  match m !! k with
  | None => <[k := v]> m
  | Some ov => if Expired ov now then <[k := v]> m else m
  end.

(** [func (c *Cache) Load(r io.Reader) error] *)
Definition Load (s : Stream) (now : Z) : M (option GoError) :=
  match gob_decode s with
  | None => ret (Some ErrDecode)
  | Some decoded =>
      do _ <- Lock;
      do _ <- modify (fun c => with_items c
               (fold_left (Load_step now) (map_to_list decoded) (items c)));
      do _ <- Unlock;
      ret None
  end.

(** The file system seen by the wrappers: file contents, the number of
    open handles, the paths on which opening or creating fails, and the
    paths whose handles report an error when closed. *)
Record FS := mkFS {
  fs_files : gmap string Stream;
  fs_open : nat;
  fs_denied : gset string;
  fs_close_fails : gset string
}.

(** [os.Create(file)]: creates or truncates the file and opens it. *)
Definition os_Create (p : string) (fs : FS) : option GoError * FS :=
  if decide (p ∈ fs_denied fs) then (Some (ErrOpen p), fs)
  else (None, mkFS (<[p := empty_stream]> (fs_files fs)) (S (fs_open fs))
                   (fs_denied fs) (fs_close_fails fs)).

(** [os.Open(file)]: opens an existing file for reading. *)
Definition os_Open (p : string) (fs : FS) : (GoError + Stream) * FS :=
  if decide (p ∈ fs_denied fs) then (inl (ErrOpen p), fs)
  else match fs_files fs !! p with
       | None => (inl (ErrOpen p), fs)
       | Some s => (inr s, mkFS (fs_files fs) (S (fs_open fs)) (fs_denied fs)
                                (fs_close_fails fs))
       end.

(** [f.Close()] on the handle of the file [p]: the handle is released, and
    the call may report an error. *)
Definition File_Close (p : string) (fs : FS) : option GoError * FS :=
  (if decide (p ∈ fs_close_fails fs) then Some (ErrClose p) else None,
   mkFS (fs_files fs) (pred (fs_open fs)) (fs_denied fs) (fs_close_fails fs)).

(** [func (c *Cache) SaveToFile(file string) error] *)
Definition SaveToFile (p : string) (fs : FS) : M (option GoError * FS) :=
  let '(err, fs1) := os_Create p fs in
  match err with
  | Some e => ret (Some e, fs1)
  | None => ret (File_Close p fs1)
  end.

(** [func (c *Cache) LoadFile(file string) error] *)
Definition LoadFile (p : string) (now : Z) (fs : FS) : M (option GoError * FS) :=
  match os_Open p fs with
  | (inl e, fs1) => ret (Some e, fs1)
  | (inr s, fs1) =>
      do err <- Load s now;
      match err with
      | Some e => ret (Some e, snd (File_Close p fs1))
      | None => ret (File_Close p fs1)
      end
  end.
End CodecDefs.

(** ** The gc goroutine *)

(** What the [select] of [gcLoop] receives: a tick of the ticker (at a
    clock reading) or a value sent on [c.stopGc]. *)
Inductive GcEvent :=
| Tick (now : Z)
| StopSignal.

(** [func (c *Cache) gcLoop()]: each tick runs [c.DeleteExpired()]; a value
    on [c.stopGc] stops the ticker and returns.  Given the events in the
    order they are received, the result is [None] while the loop is still
    running once they are used up, and [Some rest] when it returned, with
    [rest] the events it never received. *)
Fixpoint gcLoop (evs : list GcEvent) : M (option (list GcEvent)) :=
  match evs with
  | [] => ret None
  | Tick now :: evs' => do _ <- DeleteExpired now; gcLoop evs'
  | StopSignal :: evs' => ret (Some evs')
  end.

(** ** The sample program (sample/sample.go) *)

(** [fmt.Println] of an [interface{}] value. *)
Definition fmt_value (v : Value) : string :=
  match v with
  | VNil => "<nil>"
  | VInt n => pretty n
  | VStr s => s
  | VNamed _ n => "{" +:+ pretty n +:+ "}"
  end.

Definition sample_k1 : string := "hello ,I am pasca".

(** [func main()]: [t0], [t1], [t2] are the clock readings of the [Set] and
    of the two [Get] calls ([time.Sleep(10s)] lies between the [Get] calls),
    and [ticks] the clock readings of the sweeps the gc goroutine runs
    meanwhile.  The result is the printed lines. *)
Definition main (t0 t1 t2 : Z) (ticks : list Z) : Outcome (list string) :=
  (do _ <- Set_ "k1" (VStr sample_k1) 5000000000 t0;
   do r1 <- Get "k1" t1;
   do _ <- gcLoop (map Tick ticks);
   do r2 <- Get "k1" t2;
   ret [if snd r1 then "found k1: " +:+ fmt_value (fst r1) else "not found k1";
        if snd r2 then "Found k1: " +:+ fmt_value (fst r2) else "not found k1"])
  (NewCache 1800000000000 3000000000).

(** * Properties *)

(** ** Range loops over a map

    Both [range] loops of the package ([DeleteExpired] and [Load]) update, at
    the visited key [j], only the entry of [j], as a function of the visited
    value and of the current entry of [j].  Folding such a step over
    [map_to_list] (whose keys are distinct) updates every key exactly once. *)

Section RangeLoop.
Variable step : gmap string Item -> string * Item -> gmap string Item.
Variable upd : string -> Item -> option Item -> option Item.
Hypothesis step_here : forall m j v, step m (j, v) !! j = upd j v (m !! j).
Hypothesis step_other : forall m j v i, i <> j -> step m (j, v) !! i = m !! i.

Lemma fold_step_not_visited (l : list (string * Item)) (m : gmap string Item) k :
  k ∉ l.*1 -> fold_left step l m !! k = m !! k.
Proof.
  revert m. induction l as [|[j w] l IH]; intros m Hk; simpl; [reflexivity|].
  rewrite IH; [|set_solver].
  apply step_other. set_solver.
Qed.

Lemma fold_step_visited (l : list (string * Item)) (m : gmap string Item) k v :
  NoDup l.*1 -> (k, v) ∈ l -> fold_left step l m !! k = upd k v (m !! k).
Proof.
  revert m. induction l as [|[j w] l IH]; intros m Hnd Hin; simpl.
  - set_solver.
  - simpl in Hnd. apply NoDup_cons in Hnd as [Hj Hnd].
    apply elem_of_cons in Hin as [Heq | Hin].
    + injection Heq as -> ->.
      rewrite fold_step_not_visited by exact Hj. apply step_here.
    + assert (k <> j).
      { intros ->. apply Hj. apply list_elem_of_fmap. exists (j, v). auto. }
      rewrite IH by assumption. rewrite step_other by assumption. reflexivity.
Qed.

Lemma fold_step_map_to_list (dm m : gmap string Item) k :
  fold_left step (map_to_list dm) m !! k =
    match dm !! k with
    | Some v => upd k v (m !! k)
    | None => m !! k
    end.
Proof.
  destruct (dm !! k) as [v|] eqn:Hk.
  - apply fold_step_visited.
    + apply NoDup_fst_map_to_list.
    + by apply elem_of_map_to_list.
  - apply fold_step_not_visited.
    intros Hin. apply list_elem_of_fmap in Hin as [[k' v] [Heq Hin]].
    simpl in Heq; subst k'. apply elem_of_map_to_list in Hin. congruence.
Qed.
End RangeLoop.

Lemma DeleteExpired_step_here now m j v :
  DeleteExpired_step now m (j, v) !! j =
    (if Z.ltb 0 (Expiration v) && Z.ltb (Expiration v) now then None else m !! j).
Proof.
  unfold DeleteExpired_step. destruct (_ && _); [apply lookup_delete_eq | reflexivity].
Qed.

Lemma DeleteExpired_step_other now m j v i :
  i <> j -> DeleteExpired_step now m (j, v) !! i = m !! i.
Proof.
  intros Hne. unfold DeleteExpired_step.
  destruct (_ && _); [by apply lookup_delete_ne | reflexivity].
Qed.

Lemma Load_step_here now m j v :
  Load_step now m (j, v) !! j =
    match m !! j with
    | None => Some v
    | Some ov => if Expired ov now then Some v else Some ov
    end.
Proof.
  unfold Load_step. destruct (m !! j) as [ov|] eqn:E.
  - destruct (Expired ov now); [apply lookup_insert_eq | exact E].
  - apply lookup_insert_eq.
Qed.

Lemma Load_step_other now m j v i :
  i <> j -> Load_step now m (j, v) !! i = m !! i.
Proof.
  intros Hne. unfold Load_step. destruct (m !! j) as [ov|].
  - destruct (Expired ov now); [by apply lookup_insert_ne | reflexivity].
  - by apply lookup_insert_ne.
Qed.

(** ** Running the lock operations *)

Ltac run_cache :=
  cbv [DeleteExpired Set_ Add Get Replace Delete Count Flush Save Load
       SaveToFile LoadFile bind ret gets modify Lock Unlock RLock RUnlock
       delete_ with_items with_mu unlocked];
  simpl.

Lemma Count_unlocked (c : Cache) :
  mu c = unlocked -> Count c = Done (size (items c)) c.
Proof.
  destruct c as [de its [w r] gi]; simpl. intros Heq. injection Heq as -> ->.
  reflexivity.
Qed.

(** ** The expiration predicate *)

(** On non-negative expirations [Expired] is the test of the sweep pass. *)
Lemma Expired_nonneg (it : Item) (now : Z) :
  0 <= Expiration it ->
  Expired it now = (Z.ltb 0 (Expiration it) && Z.ltb (Expiration it) now).
Proof.
  intros H. unfold Expired.
  destruct (Z.eqb_spec (Expiration it) 0) as [E|E].
  - rewrite E. reflexivity.
  - replace (Z.ltb 0 (Expiration it)) with true by (symmetry; apply Z.ltb_lt; lia).
    reflexivity.
Qed.

(** C8 (code_bug): [Expired] only tests [Expiration == 0] before comparing
    with the clock, whereas the sweep pass [DeleteExpired] tests
    [Expiration > 0].  An item with the negative expiration [-5] is reported
    expired at any later clock reading, although [-5 > 0] is false. *)
Theorem Expired_negative_expiration :
  Expired (mkItem (VStr "x") (-5)) 1790000000000000000 = true /\
  ~ (0 < Expiration (mkItem (VStr "x") (-5))).
Proof. split; [reflexivity | simpl; lia]. Qed.

(** ** The sweep pass *)

(** C10 (amended): one pass of [DeleteExpired] at clock [now], started with
    the mutex free, removes exactly the entries whose expiration is positive
    and lies before [now]; entries with expiration [0] (or any expiration
    [<= 0]) and entries not yet expired are kept unchanged; [Count] then
    returns the number of kept entries. *)
Theorem DeleteExpired_spec (now : Z) (c : Cache) (Hfree : mu c = unlocked) :
  exists c', DeleteExpired now c = Done tt c' /\ mu c' = unlocked /\
    items c' = filter (fun kv : string * Item =>
                         ~ (0 < Expiration kv.2 /\ Expiration kv.2 < now)) (items c) /\
    (forall k it, items c !! k = Some it ->
       (0 < Expiration it /\ Expiration it < now -> items c' !! k = None) /\
       (Expiration it <= 0 \/ now <= Expiration it -> items c' !! k = Some it)) /\
    Count c' = Done (size (items c')) c'.
Proof.
  destruct c as [de its [w r] gi]; simpl in Hfree. injection Hfree as -> ->.
  eexists; split; [run_cache; reflexivity|].
  assert (Hl : forall k, fold_left (DeleteExpired_step now) (map_to_list its) its !! k =
            match its !! k with
            | Some it => if Z.ltb 0 (Expiration it) && Z.ltb (Expiration it) now
                         then None else Some it
            | None => None
            end).
  { intros k. rewrite (fold_step_map_to_list _
      (fun j v o => if Z.ltb 0 (Expiration v) && Z.ltb (Expiration v) now then None else o)).
    - destruct (its !! k) eqn:E; [|reflexivity].
      destruct (_ && _); reflexivity.
    - apply DeleteExpired_step_here.
    - apply DeleteExpired_step_other. }
  simpl. split; [reflexivity|]. split; [|split].
  - apply map_eq. intros k. rewrite Hl, map_lookup_filter.
    destruct (its !! k) as [it|]; simpl; [|reflexivity].
    destruct (Z.ltb_spec 0 (Expiration it)), (Z.ltb_spec (Expiration it) now); simpl;
      repeat case_guard; simpl; try reflexivity; lia.
  - intros k it Hk. rewrite Hl, Hk. split.
    + intros [H1 H2]. apply Z.ltb_lt in H1, H2. rewrite H1, H2. reflexivity.
    + intros H. destruct (Z.ltb_spec 0 (Expiration it)), (Z.ltb_spec (Expiration it) now);
        simpl; try reflexivity; lia.
  - apply Count_unlocked. reflexivity.
Qed.

Lemma DeleteExpired_spec_witness :
  mu (with_items (NewCache 0 1) (<["a" := mkItem (VInt 1) 50]> (<["b" := mkItem (VInt 2) 0]> (<["c" := mkItem (VInt 3) 200]> {["d" := mkItem (VInt 4) (-5)]})))) = unlocked /\
  (exists c', DeleteExpired 100 (with_items (NewCache 0 1) (<["a" := mkItem (VInt 1) 50]> (<["b" := mkItem (VInt 2) 0]> (<["c" := mkItem (VInt 3) 200]> {["d" := mkItem (VInt 4) (-5)]})))) = Done tt c' /\ mu c' = unlocked /\
    items c' = filter (fun kv : string * Item =>
                 ~ (0 < Expiration kv.2 /\ Expiration kv.2 < 100)) (items (with_items (NewCache 0 1) (<["a" := mkItem (VInt 1) 50]> (<["b" := mkItem (VInt 2) 0]> (<["c" := mkItem (VInt 3) 200]> {["d" := mkItem (VInt 4) (-5)]}))))) /\
    (forall k it, items (with_items (NewCache 0 1) (<["a" := mkItem (VInt 1) 50]> (<["b" := mkItem (VInt 2) 0]> (<["c" := mkItem (VInt 3) 200]> {["d" := mkItem (VInt 4) (-5)]})))) !! k = Some it ->
       (0 < Expiration it /\ Expiration it < 100 -> items c' !! k = None) /\
       (Expiration it <= 0 \/ 100 <= Expiration it -> items c' !! k = Some it)) /\
    Count c' = Done (size (items c')) c') /\
  DeleteExpired 100 (with_items (NewCache 0 1) (<["a" := mkItem (VInt 1) 50]> (<["b" := mkItem (VInt 2) 0]> (<["c" := mkItem (VInt 3) 200]> {["d" := mkItem (VInt 4) (-5)]})))) =
    Done tt (with_items (NewCache 0 1) (<["b" := mkItem (VInt 2) 0]>
               (<["c" := mkItem (VInt 3) 200]> {["d" := mkItem (VInt 4) (-5)]}))).
Proof.
  split; [reflexivity|]. split; [apply (DeleteExpired_spec 100 (with_items (NewCache 0 1) (<["a" := mkItem (VInt 1) 50]> (<["b" := mkItem (VInt 2) 0]> (<["c" := mkItem (VInt 3) 200]> {["d" := mkItem (VInt 4) (-5)]}))))); reflexivity|].
  vm_compute. reflexivity.
Defined.

(** C10 (counterexample): an entry whose expiration [-5] lies before the
    clock reading [100] of the pass survives it and is still counted. *)
Lemma DeleteExpired_keeps_past_negative :
  exists c', DeleteExpired 100 (with_items (NewCache 0 1)
                                 {["a" := mkItem (VStr "x") (-5)]}) = Done tt c' /\
    Expiration (mkItem (VStr "x") (-5)) < 100 /\
    items c' !! "a" = Some (mkItem (VStr "x") (-5)) /\
    Count c' = Done 1%nat c'.
Proof.
  eexists. split; [reflexivity|]. split; [simpl; lia|].
  split; vm_compute; reflexivity.
Qed.

(** ** Set *)

Lemma wrap64_small (z : Z) : 0 <= z <= int64_max -> wrap64 z = z.
Proof.
  unfold wrap64, int64_max. intros Hz.
  rewrite Z.mod_small by lia.
  destruct (Z.ltb_spec z (2 ^ 63)); lia.
Qed.

(** C7 (amended): [Set k v d] called with the mutex free stores, in place of
    any previous entry of [k], the item [v] with the expiration computed once
    from the clock reading [now] of the call: [0] for [NoExpiration], and for
    a positive [d] the int64 value of [now + d] ([time.Now().Add(d).UnixNano()]
    wraps around), which is [now + d] whenever that sum fits in an int64. *)
Theorem Set_spec (k : string) (v : Value) (d now : Z) (c : Cache)
    (Hfree : mu c = unlocked) :
  Set_ k v d now c =
    Done tt (with_items c (<[k := mkItem v (Set_expiration (defaultExpiration c) d now)]>
                             (items c))) /\
  (d = NoExpiration -> Set_expiration (defaultExpiration c) d now = 0) /\
  (0 < d -> Set_expiration (defaultExpiration c) d now = wrap64 (now + d)) /\
  (0 < d -> 0 <= now -> now + d <= int64_max ->
     Set_expiration (defaultExpiration c) d now = now + d).
Proof.
  destruct c as [de its [w r] gi]; simpl in Hfree |- *. injection Hfree as -> ->.
  split; [reflexivity|].
  unfold Set_expiration, DefaultExpiration, NoExpiration.
  split; [|split].
  - intros ->. reflexivity.
  - intros Hd. destruct (Z.eqb_spec d 0); [lia|].
    destruct (Z.ltb_spec 0 d); [reflexivity | lia].
  - intros Hd Hn Hs. destruct (Z.eqb_spec d 0); [lia|].
    destruct (Z.ltb_spec 0 d); [|lia]. apply wrap64_small. lia.
Qed.

Lemma Set_spec_witness :
  mu (NewCache 0 1) = unlocked /\
  (Set_ "a" (VStr "x") 1000 5 (NewCache 0 1) =
    Done tt (with_items (NewCache 0 1)
      (<[ "a" := mkItem (VStr "x") (Set_expiration (defaultExpiration (NewCache 0 1)) 1000 5)]>
         (items (NewCache 0 1)))) /\
  (1000 = NoExpiration -> Set_expiration (defaultExpiration (NewCache 0 1)) 1000 5 = 0) /\
  (0 < 1000 -> Set_expiration (defaultExpiration (NewCache 0 1)) 1000 5 = wrap64 (5 + 1000)) /\
  (0 < 1000 -> 0 <= 5 -> 5 + 1000 <= int64_max ->
     Set_expiration (defaultExpiration (NewCache 0 1)) 1000 5 = 5 + 1000)).
Proof. split; [reflexivity | apply (Set_spec "a" (VStr "x") 1000 5 (NewCache 0 1)); reflexivity]. Defined.

(** C7 (counterexample): at the clock reading 1790000000000000000 (October
    2026 in Unix nanoseconds), [Set] with the positive int64 duration
    9000000000000000000 stores a negative expiration, not [now + d]; the
    entry is then at once reported expired. *)
Lemma Set_expiration_wraps :
  Set_ "a" (VStr "x") 9000000000000000000 1790000000000000000 (NewCache 0 1) =
    Done tt (with_items (NewCache 0 1)
                {["a" := mkItem (VStr "x") (-7656744073709551616)]}) /\
  -7656744073709551616 <> 1790000000000000000 + 9000000000000000000 /\
  Expired (mkItem (VStr "x") (-7656744073709551616)) 1790000000000000000 = true.
Proof. split; [reflexivity | split; [lia | reflexivity]]. Qed.

(** ** Get *)

(** C9: [Get k] (taken when no writer holds the mutex) leaves the cache as
    it found it, map and mutex alike, so an expired entry that no sweep has
    removed stays in the map and in [Count]; and it answers not-found when
    [k] has no entry or its entry is expired (positive expiration before the
    clock reading). *)
Theorem Get_spec (k : string) (now : Z) (c : Cache)
    (Hnw : writer (mu c) = false) :
  exists r, Get k now c = Done r c /\
    (items c !! k = None \/
     (exists it, items c !! k = Some it /\ 0 < Expiration it /\ Expiration it < now) ->
     r = (VNil, false)).
Proof.
  destruct c as [de its [w n] gi]; simpl in Hnw |- *. subst w.
  eexists. split; [reflexivity|].
  simpl. intros [Hk | (it & Hk & Hpos & Hlt)]; rewrite Hk; [reflexivity|].
  unfold Expired. destruct (Z.eqb_spec (Expiration it) 0); [lia|].
  destruct (Z.ltb_spec (Expiration it) now); [reflexivity | lia].
Qed.

Lemma Get_spec_witness :
  writer (mu (with_items (NewCache 0 1) {["a" := mkItem (VStr "x") 5]})) = false /\
  exists r, Get "a" 100 (with_items (NewCache 0 1) {["a" := mkItem (VStr "x") 5]}) =
              Done r (with_items (NewCache 0 1) {["a" := mkItem (VStr "x") 5]}) /\
    (items (with_items (NewCache 0 1) {["a" := mkItem (VStr "x") 5]}) !! "a" = None \/
     (exists it, items (with_items (NewCache 0 1) {["a" := mkItem (VStr "x") 5]}) !! "a" = Some it /\
                 0 < Expiration it /\ Expiration it < 100) ->
     r = (VNil, false)).
Proof. split; [reflexivity | apply Get_spec; reflexivity]. Defined.

(** ** Add and Replace *)

(** [Add] on a key with a live entry fails with the duplicate-key error and
    leaves the cache as it was. *)
Lemma Add_live_key (k : string) (v : Value) (d now : Z) (c : Cache)
    (Hfree : mu c = unlocked) :
  snd (get_ k now c) = true -> Add k v d now c = Done (Some (ErrItemExists k)) c.
Proof.
  destruct c as [de its [w r] gi]; simpl in Hfree. injection Hfree as -> ->.
  intros Hf. cbv [Add bind gets ret Lock Unlock modify with_mu]; simpl.
  unfold get_ in *; simpl in *.
  destruct (its !! k) as [it|]; [destruct (Expired it now)|]; simpl in *; congruence.
Qed.

(** [Replace] on a key with no live entry fails with the missing-key error
    and leaves the cache as it was. *)
Lemma Replace_missing_key (k : string) (v : Value) (d now : Z) (c : Cache)
    (Hfree : mu c = unlocked) :
  snd (get_ k now c) = false -> Replace k v d now c = Done (Some (ErrItemMissing k)) c.
Proof.
  destruct c as [de its [w r] gi]; simpl in Hfree. injection Hfree as -> ->.
  intros Hf. cbv [Replace bind gets ret Lock Unlock modify with_mu]; simpl.
  unfold get_ in *; simpl in *.
  destruct (its !! k) as [it|]; [destruct (Expired it now)|]; simpl in *; congruence.
Qed.

(** C2: when the existence check of [Add] finds no live entry, or the one of
    [Replace] finds a live entry, the call goes on to [Set] while it holds
    the write lock it took itself; [Set]'s [c.mu.Lock()] then waits on that
    lock in a state where the writer flag is the caller's own.  The lock is
    not reentrant and nothing in the call releases it, so the call never
    returns. *)
Theorem Add_Replace_self_deadlock (k : string) (v : Value) (d now : Z) (c : Cache)
    (Hfree : mu c = unlocked) :
  (snd (get_ k now c) = false ->
     Add k v d now c = Blocked (with_mu c (mkRWMutex true 0%nat))) /\
  (snd (get_ k now c) = true ->
     Replace k v d now c = Blocked (with_mu c (mkRWMutex true 0%nat))).
Proof.
  destruct c as [de its [w r] gi]; simpl in Hfree. injection Hfree as -> ->.
  split; intros Hf.
  - cbv [Add Set_ bind gets ret Lock Unlock modify with_mu]; simpl.
    unfold get_ in *; simpl in *.
    destruct (its !! k) as [it|]; [destruct (Expired it now)|]; simpl in *; congruence.
  - cbv [Replace Set_ bind gets ret Lock Unlock modify with_mu]; simpl.
    unfold get_ in *; simpl in *.
    destruct (its !! k) as [it|]; [destruct (Expired it now)|]; simpl in *; congruence.
Qed.

Lemma Add_Replace_self_deadlock_witness :
  mu (with_items (NewCache 0 1) {["b" := mkItem (VInt 1) 0]}) = unlocked /\
  (snd (get_ "a" 0 (with_items (NewCache 0 1) {["b" := mkItem (VInt 1) 0]})) = false ->
     Add "a" (VStr "x") NoExpiration 0 (with_items (NewCache 0 1) {["b" := mkItem (VInt 1) 0]})
     = Blocked (with_mu (with_items (NewCache 0 1) {["b" := mkItem (VInt 1) 0]})
                        (mkRWMutex true 0%nat))) /\
  (snd (get_ "a" 0 (with_items (NewCache 0 1) {["b" := mkItem (VInt 1) 0]})) = true ->
     Replace "a" (VStr "x") NoExpiration 0 (with_items (NewCache 0 1) {["b" := mkItem (VInt 1) 0]})
     = Blocked (with_mu (with_items (NewCache 0 1) {["b" := mkItem (VInt 1) 0]})
                        (mkRWMutex true 0%nat))).
Proof. split; [reflexivity | apply Add_Replace_self_deadlock; reflexivity]. Defined.

(** C5 (code_bug): [Add "a" "x" NoExpiration] on a new, empty cache does not
    succeed: it waits forever on the lock it holds (same defect as C2). *)
Theorem Add_absent_key_blocks :
  Add "a" (VStr "x") NoExpiration 0 (NewCache 0 1) =
    Blocked (with_mu (NewCache 0 1) (mkRWMutex true 0%nat)).
Proof. reflexivity. Qed.

(** C6 (code_bug): [Replace "a" "y" NoExpiration] on a cache whose key "a"
    has a live entry does not succeed: it waits forever on the lock it holds
    (same defect as C2). *)
Theorem Replace_live_key_blocks :
  Replace "a" (VStr "y") NoExpiration 0
    (with_items (NewCache 0 1) {["a" := mkItem (VStr "x") 0]}) =
    Blocked (with_mu (with_items (NewCache 0 1) {["a" := mkItem (VStr "x") 0]})
                     (mkRWMutex true 0%nat)).
Proof. reflexivity. Qed.

(** ** Save, Load and the file wrappers *)

Section CodecProps.
Context {Stream : Type}.
Variable gob_encode : gmap string Item -> option Stream.
Variable gob_decode : Stream -> option (gmap string Item).

Lemma Load_fold_lookup (now : Z) (decoded m : gmap string Item) k :
  fold_left (Load_step now) (map_to_list decoded) m !! k =
    match decoded !! k, m !! k with
    | Some v, None => Some v
    | Some v, Some ov => if Expired ov now then Some v else Some ov
    | None, o => o
    end.
Proof.
  rewrite (fold_step_map_to_list _
    (fun j v o => match o with
                  | None => Some v
                  | Some ov => if Expired ov now then Some v else Some ov
                  end)).
  - destruct (decoded !! k), (m !! k); reflexivity.
  - apply Load_step_here.
  - apply Load_step_other.
Qed.


Hypothesis gob_roundtrip :
  forall m s, gob_encode m = Some s -> gob_decode s = Some m.
Variable gob_registry : Registry.

(** C4: if [Save] succeeds on a cache (taken when no writer holds its
    mutex) and writes the stream [s], it leaves the cache as it was, and
    [Load] of [s] into a new cache yields exactly the saved entries: the
    same keys, values and expirations. *)
Theorem Save_Load_roundtrip (c c' : Cache) (s : Stream) (now de gi : Z)
    (Hnw : writer (mu c) = false) :
  Save gob_encode gob_registry c = Done (None, Some s) c' ->
  c' = c /\
  Load gob_decode s now (NewCache de gi) =
    Done None (with_items (NewCache de gi) (items c)).
Proof.
  destruct c as [de0 its [w n] gi0]; simpl in Hnw. subst w.
  cbv [Save bind gets ret RLock RUnlock modify with_mu]; simpl.
  destruct (gob_Register_all _ _); [|congruence].
  destruct (gob_encode its) as [s'|] eqn:He; [|congruence].
  intros Hs. injection Hs as <- <-. split; [reflexivity|].
  unfold Load. rewrite (gob_roundtrip _ _ He).
  cbv [bind gets ret Lock Unlock modify with_mu with_items NewCache unlocked]; simpl.
  do 3 f_equal. apply map_eq. intros k. rewrite Load_fold_lookup, lookup_empty.
  destruct (its !! k); reflexivity.
Qed.
End CodecProps.

(** A codec for the witnesses: the stream is the list of entries. *)
Definition list_encode (m : gmap string Item) : option (list (string * Item)) :=
  Some (map_to_list m).
Definition list_decode (l : list (string * Item)) : option (gmap string Item) :=
  Some (list_to_map l).

Lemma list_codec_roundtrip m s : list_encode m = Some s -> list_decode s = Some m.
Proof.
  unfold list_encode, list_decode. intros H. injection H as <-.
  by rewrite list_to_map_to_list.
Qed.


Lemma Save_Load_roundtrip_witness :
  writer (mu (with_items (NewCache 0 1) {["a" := mkItem (VStr "x") 7]})) = false /\
  Save list_encode no_named_types (with_items (NewCache 0 1) {["a" := mkItem (VStr "x") 7]}) =
    Done (None, Some (map_to_list {["a" := mkItem (VStr "x") 7]}))
         (with_items (NewCache 0 1) {["a" := mkItem (VStr "x") 7]}) /\
  (with_items (NewCache 0 1) {["a" := mkItem (VStr "x") 7]} =
     with_items (NewCache 0 1) {["a" := mkItem (VStr "x") 7]} /\
   Load list_decode (map_to_list {["a" := mkItem (VStr "x") 7]}) 100 (NewCache 5 2) =
     Done None (with_items (NewCache 5 2)
                  (items (with_items (NewCache 0 1) {["a" := mkItem (VStr "x") 7]})))).
Proof.
  split; [reflexivity|]. split; [reflexivity|].
  apply (Save_Load_roundtrip list_encode list_decode list_codec_roundtrip
           no_named_types _ _ _ 100 5 2); reflexivity.
Defined.

(** C1 (code_bug): [SaveToFile] creates (or truncates) the file, closes it
    and returns the error of [f.Close()]; it never calls [Save].  Whatever
    the cache holds, once the file could be created it is left empty, and
    the cache is not read. *)
Theorem SaveToFile_leaves_file_empty {Stream : Type} (empty_stream : Stream)
    (p : string) (fs : FS) (c : Cache) :
  SaveToFile empty_stream p fs c =
    Done (if decide (p ∈ fs_denied fs) then (Some (ErrOpen p), fs)
          else (if decide (p ∈ fs_close_fails fs) then Some (ErrClose p) else None,
                mkFS (<[p := empty_stream]> (fs_files fs)) (fs_open fs)
                     (fs_denied fs) (fs_close_fails fs))) c.
Proof.
  unfold SaveToFile, os_Create, File_Close.
  destruct (decide (p ∈ fs_denied fs)); reflexivity.
Qed.

(** The sibling wrapper [LoadFile] does hand the file's contents to [Load]. *)
Example LoadFile_uses_Load :
  LoadFile list_decode "cache.gob" 100
    (mkFS {["cache.gob" := [("a", mkItem (VStr "y") 0)]]} 0 ∅ ∅) (NewCache 0 1) =
  Done (None, mkFS {["cache.gob" := [("a", mkItem (VStr "y") 0)]]} 0 ∅ ∅)
       (with_items (NewCache 0 1) {["a" := mkItem (VStr "y") 0]}).
Proof. reflexivity. Qed.

Example main_prints :
  main 0 1 10000000001 [3000000000; 6000000000; 9000000000] =
    Done ["found k1: hello ,I am pasca"; "not found k1"]
      (with_items (NewCache 1800000000000 3000000000) ∅).
Proof. vm_compute. reflexivity. Qed.

(** * Further properties of the package *)

(** A sweep pass, run with the mutex free, keeps exactly the entries that are
    not (positive and before the clock reading). *)
Definition sweep_keep (now : Z) (kv : string * Item) : Prop :=
  ~ (0 < Expiration kv.2 /\ Expiration kv.2 < now).

Lemma DeleteExpired_run (now : Z) (c : Cache) :
  mu c = unlocked ->
  DeleteExpired now c = Done tt (with_items c (filter (sweep_keep now) (items c))).
Proof.
  destruct c as [de its [w r] gi]; simpl. intros Heq. injection Heq as -> ->.
  run_cache. do 2 f_equal. apply map_eq. intros k.
  rewrite (fold_step_map_to_list _
      (fun j v o => if Z.ltb 0 (Expiration v) && Z.ltb (Expiration v) now then None else o)).
  2: apply DeleteExpired_step_here. 2: apply DeleteExpired_step_other.
  rewrite map_lookup_filter. unfold sweep_keep.
  destruct (its !! k) as [it|]; simpl; [|reflexivity].
  destruct (Z.ltb_spec 0 (Expiration it)), (Z.ltb_spec (Expiration it) now); simpl;
    repeat case_guard; simpl; try reflexivity; lia.
Qed.

(** Two sweep passes at clock readings [t1 <= t2] leave the cache as the
    single later pass does. *)
Theorem DeleteExpired_later_subsumes (t1 t2 : Z) (c : Cache)
    (Hfree : mu c = unlocked) (Hle : t1 <= t2) :
  (do _ <- DeleteExpired t1; DeleteExpired t2) c = DeleteExpired t2 c.
Proof.
  cbv [bind]. rewrite DeleteExpired_run by exact Hfree.
  rewrite DeleteExpired_run by (destruct c; simpl in *; exact Hfree).
  rewrite DeleteExpired_run by exact Hfree.
  destruct c as [de its l gi]; cbv [with_items]; simpl. do 2 f_equal.
  apply map_eq. intros k. rewrite !map_lookup_filter.
  destruct (its !! k) as [it|]; simpl; [|reflexivity].
  unfold sweep_keep; simpl.
  destruct (decide (0 < Expiration it /\ Expiration it < t1)),
           (decide (0 < Expiration it /\ Expiration it < t2));
    repeat (simpl; case_guard); simpl; try reflexivity; try tauto; lia.
Qed.

Lemma DeleteExpired_later_subsumes_witness :
  mu (with_items (NewCache 0 1) {["a" := mkItem (VInt 1) 50]}) = unlocked /\ 10 <= 100 /\
  (do _ <- DeleteExpired 10; DeleteExpired 100)
    (with_items (NewCache 0 1) {["a" := mkItem (VInt 1) 50]}) =
  DeleteExpired 100 (with_items (NewCache 0 1) {["a" := mkItem (VInt 1) 50]}).
Proof.
  split; [reflexivity|]. split; [lia|].
  apply DeleteExpired_later_subsumes; [reflexivity | lia].
Defined.

(** [Set] followed by [Get]: an item set with [NoExpiration] is found at
    every later clock reading; an item set with a positive duration [d]
    (with [now + d] an int64) is found exactly up to [now + d]. *)
Theorem Set_then_Get (k : string) (v : Value) (d t0 t : Z) (c : Cache)
    (Hfree : mu c = unlocked) :
  exists c', Set_ k v d t0 c = Done tt c' /\ mu c' = unlocked /\
    (d = NoExpiration -> Get k t c' = Done (v, true) c') /\
    (0 < d -> 0 <= t0 -> t0 + d <= int64_max ->
       Get k t c' = Done (if Z.leb t (t0 + d) then (v, true) else (VNil, false)) c').
Proof.
  destruct c as [de its [w r] gi]; simpl in Hfree. injection Hfree as -> ->.
  eexists. split; [reflexivity|]. split; [reflexivity|]. split.
  - intros ->. cbv [Get bind gets ret RLock RUnlock modify with_mu]; simpl.
    rewrite lookup_insert_eq. reflexivity.
  - intros Hd H0 Hmax. cbv [Get bind gets ret RLock RUnlock modify with_mu]; simpl.
    rewrite lookup_insert_eq. unfold Expired, Set_expiration, DefaultExpiration; simpl.
    destruct (Z.eqb_spec d 0); [lia|]. destruct (Z.ltb_spec 0 d); [|lia].
    rewrite wrap64_small by lia.
    destruct (Z.eqb_spec (t0 + d) 0); [lia|].
    destruct (Z.ltb_spec (t0 + d) t), (Z.leb_spec t (t0 + d)); try reflexivity; lia.
Qed.

Lemma Set_then_Get_witness :
  mu (NewCache 0 1) = unlocked /\
  exists c', Set_ "a" (VStr "x") 50 10 (NewCache 0 1) = Done tt c' /\ mu c' = unlocked /\
    (50 = NoExpiration -> Get "a" 70 c' = Done (VStr "x", true) c') /\
    (0 < 50 -> 0 <= 10 -> 10 + 50 <= int64_max ->
       Get "a" 70 c' = Done (if Z.leb 70 (10 + 50) then (VStr "x", true) else (VNil, false)) c').
Proof. split; [reflexivity | apply Set_then_Get; reflexivity]. Defined.

(** [Delete k] removes the entry of [k] and no other; [k] is then not found
    and [Count] drops by one if [k] had an entry (expired or not). *)
Theorem Delete_spec (k : string) (c : Cache) (Hfree : mu c = unlocked) :
  exists c', Delete k c = Done tt c' /\ mu c' = unlocked /\
    items c' = delete k (items c) /\
    (forall t, Get k t c' = Done (VNil, false) c') /\
    Count c' = Done (match items c !! k with
                     | Some _ => pred (size (items c))
                     | None => size (items c)
                     end) c'.
Proof.
  destruct c as [de its [w r] gi]; simpl in Hfree |- *. injection Hfree as -> ->.
  eexists. split; [reflexivity|]. split; [reflexivity|]. split; [reflexivity|].
  split.
  - intros t. cbv [Get bind gets ret RLock RUnlock modify with_mu]; simpl.
    rewrite lookup_delete_eq. reflexivity.
  - rewrite Count_unlocked by reflexivity. simpl. rewrite map_size_delete.
    destruct (its !! k); reflexivity.
Qed.

Lemma Delete_spec_witness :
  mu (with_items (NewCache 0 1) {["a" := mkItem (VInt 1) 0]}) = unlocked /\
  exists c', Delete "a" (with_items (NewCache 0 1) {["a" := mkItem (VInt 1) 0]}) = Done tt c' /\
    mu c' = unlocked /\
    items c' = delete "a" (items (with_items (NewCache 0 1) {["a" := mkItem (VInt 1) 0]})) /\
    (forall t, Get "a" t c' = Done (VNil, false) c') /\
    Count c' = Done (match items (with_items (NewCache 0 1) {["a" := mkItem (VInt 1) 0]}) !! "a" with
                     | Some _ => pred (size (items (with_items (NewCache 0 1) {["a" := mkItem (VInt 1) 0]})))
                     | None => size (items (with_items (NewCache 0 1) {["a" := mkItem (VInt 1) 0]}))
                     end) c'.
Proof. split; [reflexivity | apply Delete_spec; reflexivity]. Defined.

(** [Flush] empties the map, keeps the configuration, and afterwards [Count]
    is 0 and no key is found. *)
Theorem Flush_spec (c : Cache) (Hfree : mu c = unlocked) :
  exists c', Flush c = Done tt c' /\ mu c' = unlocked /\ items c' = ∅ /\
    defaultExpiration c' = defaultExpiration c /\ gcInterval c' = gcInterval c /\
    Count c' = Done 0%nat c' /\
    (forall k t, Get k t c' = Done (VNil, false) c').
Proof.
  destruct c as [de its [w r] gi]; simpl in Hfree |- *. injection Hfree as -> ->.
  eexists. do 5 (split; [reflexivity|]). split.
  - rewrite Count_unlocked by reflexivity. reflexivity.
  - intros k t. reflexivity.
Qed.

Lemma Flush_spec_witness :
  mu (with_items (NewCache 0 1) {["a" := mkItem (VInt 1) 0]}) = unlocked /\
  exists c', Flush (with_items (NewCache 0 1) {["a" := mkItem (VInt 1) 0]}) = Done tt c' /\
    mu c' = unlocked /\ items c' = ∅ /\
    defaultExpiration c' = defaultExpiration (with_items (NewCache 0 1) {["a" := mkItem (VInt 1) 0]}) /\
    gcInterval c' = gcInterval (with_items (NewCache 0 1) {["a" := mkItem (VInt 1) 0]}) /\
    Count c' = Done 0%nat c' /\
    (forall k t, Get k t c' = Done (VNil, false) c').
Proof. split; [reflexivity | apply Flush_spec; reflexivity]. Defined.

Lemma Add_live_key_witness :
  mu (with_items (NewCache 0 1) {["a" := mkItem (VStr "x") 0]}) = unlocked /\
  snd (get_ "a" 5 (with_items (NewCache 0 1) {["a" := mkItem (VStr "x") 0]})) = true /\
  Add "a" (VStr "y") NoExpiration 5 (with_items (NewCache 0 1) {["a" := mkItem (VStr "x") 0]}) =
    Done (Some (ErrItemExists "a")) (with_items (NewCache 0 1) {["a" := mkItem (VStr "x") 0]}).
Proof.
  split; [reflexivity|]. split; [reflexivity|]. apply Add_live_key; reflexivity.
Defined.

Lemma Replace_missing_key_witness :
  mu (with_items (NewCache 0 1) {["a" := mkItem (VStr "x") 3]}) = unlocked /\
  snd (get_ "a" 5 (with_items (NewCache 0 1) {["a" := mkItem (VStr "x") 3]})) = false /\
  Replace "a" (VStr "y") NoExpiration 5 (with_items (NewCache 0 1) {["a" := mkItem (VStr "x") 3]}) =
    Done (Some (ErrItemMissing "a")) (with_items (NewCache 0 1) {["a" := mkItem (VStr "x") 3]}).
Proof.
  split; [reflexivity|]. split; [reflexivity|]. apply Replace_missing_key; reflexivity.
Defined.

Lemma gob_Register_all_nil_free (reg r : Registry) (vs : list Value) :
  gob_Register_all reg vs = Some r -> VNil ∉ vs.
Proof.
  revert reg. induction vs as [|v vs IH]; intros reg H; simpl in H.
  - apply not_elem_of_nil.
  - destruct (gob_Register reg v) as [reg'|] eqn:Hv; [|discriminate].
    apply not_elem_of_cons. split; [intros <-; discriminate Hv | exact (IH _ H)].
Qed.

(** A successful [RegisterName] keeps every name it finds registered. *)
Lemma gob_Register_keeps_name (reg reg' : Registry) (v : Value) (n : string) (u : positive) :
  gob_Register reg v = Some reg' ->
  nameToConcreteType reg !! n = Some u -> nameToConcreteType reg' !! n = Some u.
Proof.
  destruct v as [| | |t m]; simpl; try congruence.
  unfold RegisterName.
  destruct (decide (ty_name t = ""%string)); [discriminate|].
  destruct (decide (default (ty_user t) (nameToConcreteType reg !! ty_name t) <> ty_user t))
    as [|Hu]; [discriminate|].
  destruct (decide _); [discriminate|].
  intros H Hn. injection H as <-. simpl.
  destruct (decide (n = ty_name t)) as [->|Hne].
  - rewrite lookup_insert_eq. rewrite Hn in Hu. simpl in Hu.
    f_equal. destruct (decide (u = ty_user t)); [done | contradiction].
  - by rewrite lookup_insert_ne.
Qed.

Lemma gob_Register_all_name (reg r : Registry) (vs : list Value) (t : GoType) (m : Z)
    (u : positive) :
  gob_Register_all reg vs = Some r -> VNamed t m ∈ vs ->
  nameToConcreteType reg !! ty_name t = Some u -> u = ty_user t.
Proof.
  revert reg. induction vs as [|v vs IH]; intros reg H Hin Hu; simpl in H.
  - by apply not_elem_of_nil in Hin.
  - destruct (gob_Register reg v) as [reg'|] eqn:Hv; [|discriminate].
    apply elem_of_cons in Hin as [<-|Hin].
    + simpl in Hv. unfold RegisterName in Hv. rewrite Hu in Hv. simpl in Hv.
      destruct (decide _); [discriminate|].
      destruct (decide (u <> ty_user t)) as [|Hne]; [discriminate|].
      destruct (decide (u = ty_user t)); [done | contradiction].
    + exact (IH reg' H Hin (gob_Register_keeps_name _ _ _ _ _ Hv Hu)).
Qed.

Lemma Save_register_nil_free (reg r : Registry) (its : gmap string Item) :
  gob_Register_all reg ((fun kv : string * Item => Object kv.2) <$> map_to_list its) = Some r ->
  forall k it, its !! k = Some it -> Object it <> VNil.
Proof.
  intros H k it Hk Hnil. apply (gob_Register_all_nil_free _ _ _ H).
  apply list_elem_of_fmap. exists (k, it). split; [simpl; by rewrite Hnil | by apply elem_of_map_to_list].
Qed.

Section CodecMore.
Context {Stream : Type}.
Variable gob_encode : gmap string Item -> option Stream.
Variable gob_decode : Stream -> option (gmap string Item).
Variable gob_registry : Registry.


(** A [nil] value in the cache makes [Save] fail with the recovered panic of
    [gob.Register], whatever the encoder, and leaves the cache as it was. *)
Theorem Save_nil_value_error (c : Cache) (k : string) (e : Z)
    (Hnw : writer (mu c) = false) (Hk : items c !! k = Some (mkItem VNil e)) :
  Save gob_encode gob_registry c = Done (Some ErrRegister, None) c.
Proof.
  destruct c as [de its [w n] gi]; simpl in Hnw, Hk |- *. subst w.
  cbv [Save bind gets ret RLock RUnlock modify with_mu]; simpl.
  destruct (gob_Register_all _ _) as [r|] eqn:Hr; [|reflexivity].
  exfalso. exact (Save_register_nil_free _ _ _ Hr k _ Hk eq_refl).
Qed.

(** A value of a named type whose name gob has already registered for
    another type makes [Save] fail with the recovered panic of
    [gob.Register], whatever the encoder, and leaves the cache as it was. *)
Theorem Save_name_clash_error (c : Cache) (k : string) (t : GoType) (m e : Z) (u : positive)
    (Hnw : writer (mu c) = false) (Hk : items c !! k = Some (mkItem (VNamed t m) e))
    (Hreg : nameToConcreteType gob_registry !! ty_name t = Some u) (Hu : u <> ty_user t) :
  Save gob_encode gob_registry c = Done (Some ErrRegister, None) c.
Proof.
  destruct c as [de its [w n] gi]; simpl in Hnw, Hk |- *. subst w.
  cbv [Save bind gets ret RLock RUnlock modify with_mu]; simpl.
  destruct (gob_Register_all _ _) as [r|] eqn:Hr; [|reflexivity].
  exfalso. apply Hu. apply (gob_Register_all_name _ _ _ t m u Hr); [|exact Hreg].
  apply list_elem_of_fmap. exists (k, mkItem (VNamed t m) e).
  split; [reflexivity | by apply elem_of_map_to_list].
Qed.

(** Two [Load]s of the same stream at the same clock reading leave the cache
    as one does. *)
Theorem Load_idempotent (s : Stream) (now : Z) (c : Cache) (Hfree : mu c = unlocked) :
  (do _ <- Load gob_decode s now; Load gob_decode s now) c = Load gob_decode s now c.
Proof.
  destruct c as [de its [w r] gi]; simpl in Hfree. injection Hfree as -> ->.
  unfold Load. destruct (gob_decode s) as [dm|]; [|reflexivity].
  cbv [bind gets ret Lock Unlock modify with_mu with_items]; simpl.
  do 2 f_equal. apply map_eq. intros k. rewrite !Load_fold_lookup.
  destruct (dm !! k) as [v|]; [|reflexivity].
  destruct (its !! k) as [ov|]; simpl.
  - destruct (Expired ov now) eqn:E; [destruct (Expired v now)|rewrite E]; reflexivity.
  - destruct (Expired v now); reflexivity.
Qed.

(** [LoadFile] closes the file on every path, so the file system is left as
    it was; a file that cannot be opened gives the open error and leaves
    the cache as it was; an opened file is handed to [Load], whose cache
    [LoadFile] returns, together with the error of [Load] when there is one
    and otherwise the error of [f.Close()]. *)
Theorem LoadFile_spec (p : string) (now : Z) (fs : FS) (c : Cache)
    (Hfree : mu c = unlocked) :
  exists r fs' c', LoadFile gob_decode p now fs c = Done (r, fs') c' /\
    fs_files fs' = fs_files fs /\ fs_open fs' = fs_open fs /\
    fs_denied fs' = fs_denied fs /\ fs_close_fails fs' = fs_close_fails fs /\
    (p ∈ fs_denied fs \/ fs_files fs !! p = None -> r = Some (ErrOpen p) /\ c' = c) /\
    (forall s, p ∉ fs_denied fs -> fs_files fs !! p = Some s ->
       exists rl, Load gob_decode s now c = Done rl c' /\
         r = match rl with
             | Some e => Some e
             | None => if decide (p ∈ fs_close_fails fs) then Some (ErrClose p) else None
             end).
Proof.
  destruct c as [de its [w n] gi]; simpl in Hfree. injection Hfree as -> ->.
  unfold LoadFile, os_Open.
  destruct (decide (p ∈ fs_denied fs)) as [Hd|Hd].
  - do 3 eexists. split; [reflexivity|]. do 4 (split; [reflexivity|]).
    split; [auto | intros s Hs; contradiction].
  - destruct (fs_files fs !! p) as [s|] eqn:Hp.
    + unfold Load. destruct (gob_decode s) as [dm|] eqn:Hdec;
        cbv [bind gets ret Lock Unlock modify with_mu with_items File_Close]; simpl;
        do 3 eexists; (split; [reflexivity|]); simpl; do 4 (split; [reflexivity|]);
        (split; [intros [?|?]; congruence|]);
        intros s' _ Hs'; injection Hs' as <-;
        rewrite Hdec; eexists; split; reflexivity.
    + do 3 eexists. split; [reflexivity|]. do 4 (split; [reflexivity|]).
      split; [auto | intros s _ Hs; congruence].
Qed.
End CodecMore.


Lemma Save_nil_value_error_witness :
  writer (mu (with_items (NewCache 0 1) {["a" := mkItem VNil 0]})) = false /\
  items (with_items (NewCache 0 1) {["a" := mkItem VNil 0]}) !! "a" = Some (mkItem VNil 0) /\
  Save list_encode no_named_types (with_items (NewCache 0 1) {["a" := mkItem VNil 0]}) =
    Done (Some ErrRegister, None) (with_items (NewCache 0 1) {["a" := mkItem VNil 0]}).
Proof.
  split; [reflexivity|]. split; [reflexivity|].
  apply (Save_nil_value_error list_encode no_named_types _ "a" 0); reflexivity.
Defined.

Lemma Save_name_clash_error_witness :
  writer (mu (with_items (NewCache 0 1)
                {["a" := mkItem (VNamed (mkGoType 1 1 "main.T") 4) 0]})) = false /\
  items (with_items (NewCache 0 1) {["a" := mkItem (VNamed (mkGoType 1 1 "main.T") 4) 0]})
    !! "a" = Some (mkItem (VNamed (mkGoType 1 1 "main.T") 4) 0) /\
  nameToConcreteType (mkRegistry {["main.T" := 2%positive]} ∅)
    !! ty_name (mkGoType 1 1 "main.T") = Some 2%positive /\
  2%positive <> ty_user (mkGoType 1 1 "main.T") /\
  Save list_encode (mkRegistry {["main.T" := 2%positive]} ∅)
    (with_items (NewCache 0 1) {["a" := mkItem (VNamed (mkGoType 1 1 "main.T") 4) 0]}) =
    Done (Some ErrRegister, None)
      (with_items (NewCache 0 1) {["a" := mkItem (VNamed (mkGoType 1 1 "main.T") 4) 0]}).
Proof.
  split; [reflexivity|]. split; [reflexivity|]. split; [reflexivity|].
  split; [simpl; discriminate|].
  apply (Save_name_clash_error list_encode (mkRegistry {["main.T" := 2%positive]} ∅)
           _ "a" (mkGoType 1 1 "main.T") 4 0 2); [reflexivity | reflexivity | reflexivity | simpl; discriminate].
Defined.

Lemma Load_idempotent_witness :
  mu (with_items (NewCache 0 1) {["a" := mkItem (VStr "x") 7]}) = unlocked /\
  (do _ <- Load list_decode [("a", mkItem (VStr "y") 0)] 100;
   Load list_decode [("a", mkItem (VStr "y") 0)] 100)
    (with_items (NewCache 0 1) {["a" := mkItem (VStr "x") 7]}) =
  Load list_decode [("a", mkItem (VStr "y") 0)] 100
    (with_items (NewCache 0 1) {["a" := mkItem (VStr "x") 7]}).
Proof. split; [reflexivity | apply Load_idempotent; reflexivity]. Defined.

(** A file holding one entry, whose handle reports an error on close. *)
Definition fs_close_error : FS (Stream := list (string * Item)) :=
  mkFS {["f" := [("a", mkItem (VStr "y") 0)]]} 0 ∅ {["f"]}.

Lemma LoadFile_spec_witness :
  mu (NewCache 0 1) = unlocked /\
  exists r fs' c', LoadFile list_decode "f" 100 fs_close_error (NewCache 0 1) = Done (r, fs') c' /\
    fs_files fs' = fs_files fs_close_error /\ fs_open fs' = fs_open fs_close_error /\
    fs_denied fs' = fs_denied fs_close_error /\
    fs_close_fails fs' = fs_close_fails fs_close_error /\
    ("f" ∈ fs_denied fs_close_error \/ fs_files fs_close_error !! "f" = None ->
       r = Some (ErrOpen "f") /\ c' = NewCache 0 1) /\
    (forall s, "f" ∉ fs_denied fs_close_error -> fs_files fs_close_error !! "f" = Some s ->
       exists rl, Load list_decode s 100 (NewCache 0 1) = Done rl c' /\
         r = match rl with
             | Some e => Some e
             | None => if decide ("f" ∈ fs_close_fails fs_close_error)
                       then Some (ErrClose "f") else None
             end).
Proof. split; [reflexivity | apply LoadFile_spec; reflexivity]. Defined.

(** ** The gc goroutine and the sample program *)

Lemma gcLoop_run (evs : list GcEvent) (c : Cache) :
  mu c = unlocked ->
  exists r c', gcLoop evs c = Done r c' /\ mu c' = unlocked /\
    defaultExpiration c' = defaultExpiration c /\ gcInterval c' = gcInterval c /\
    (forall k it, items c' !! k = Some it -> items c !! k = Some it) /\
    (forall k it, items c !! k = Some it -> Expiration it <= 0 -> items c' !! k = Some it).
Proof.
  revert c. induction evs as [|[now|] evs IH]; intros c Hfree; simpl.
  - do 2 eexists. split; [reflexivity|]. auto 10.
  - cbv [bind]. rewrite DeleteExpired_run by exact Hfree.
    destruct (IH (with_items c (filter (sweep_keep now) (items c)))) as
      (r & c' & Hrun & Hmu & Hde & Hgi & Hsub & Hkeep); [exact Hfree|].
    exists r, c'. rewrite Hrun. simpl in *. split; [reflexivity|].
    split; [exact Hmu|]. split; [exact Hde|]. split; [exact Hgi|]. split.
    + intros k it Hk. apply Hsub in Hk. apply map_lookup_filter_Some in Hk as [Hk _].
      exact Hk.
    + intros k it Hk He. apply Hkeep; [|exact He]. apply map_lookup_filter_Some.
      split; [exact Hk | unfold sweep_keep; simpl; lia].
  - do 2 eexists. split; [reflexivity|]. auto 10.
Qed.




(** The sample program prints "found k1: hello ,I am pasca" and then
    "not found k1" whenever its first [Get] runs no later than 5s after the
    [Set] and its second [Get] more than 5s after it, whatever sweeps the gc
    goroutine runs in between. *)
Theorem main_output (t0 t1 t2 : Z) (ticks : list Z)
    (H0 : 0 <= t0) (Hmax : t0 + 5000000000 <= int64_max)
    (H1 : t1 <= t0 + 5000000000) (H2 : t0 + 5000000000 < t2) :
  exists c, main t0 t1 t2 ticks = Done ["found k1: hello ,I am pasca"; "not found k1"] c.
Proof.
  set (c1 := mkCache 1800000000000
               {["k1" := mkItem (VStr sample_k1) (t0 + 5000000000)]} unlocked 3000000000).
  assert (HSet : Set_ "k1" (VStr sample_k1) 5000000000 t0
                   (NewCache 1800000000000 3000000000) = Done tt c1).
  { unfold c1. rewrite <- (wrap64_small (t0 + 5000000000)) by lia. reflexivity. }
  assert (HGet1 : Get "k1" t1 c1 = Done (VStr sample_k1, true) c1).
  { cbv [Get bind gets ret RLock RUnlock modify with_mu c1]; simpl.
    rewrite lookup_singleton_eq. unfold Expired; simpl.
    destruct (Z.eqb_spec (t0 + 5000000000) 0); [lia|].
    destruct (Z.ltb_spec (t0 + 5000000000) t1); [lia|]. reflexivity. }
  destruct (gcLoop_run (map Tick ticks) c1 eq_refl)
    as (r & c2 & Hrun & Hmu & _ & _ & Hsub & _).
  assert (HGet2 : Get "k1" t2 c2 = Done (VNil, false) c2).
  { destruct c2 as [de its [w n] gi]; simpl in Hmu, Hsub. injection Hmu as -> ->.
    cbv [Get bind gets ret RLock RUnlock modify with_mu]; simpl.
    destruct (its !! "k1") as [it|] eqn:Hk; [|reflexivity].
    apply Hsub in Hk. unfold c1 in Hk; simpl in Hk.
    rewrite lookup_singleton_eq in Hk. injection Hk as <-. unfold Expired; simpl.
    destruct (Z.eqb_spec (t0 + 5000000000) 0); [lia|].
    destruct (Z.ltb_spec (t0 + 5000000000) t2); [reflexivity|lia]. }
  exists c2. unfold main. cbv [bind ret].
  rewrite HSet, HGet1, Hrun, HGet2. reflexivity.
Qed.

Lemma main_output_witness :
  0 <= 0 /\ 0 + 5000000000 <= int64_max /\ 1 <= 0 + 5000000000 /\
  0 + 5000000000 < 10000000001 /\
  exists c, main 0 1 10000000001 [3000000000; 6000000000; 9000000000] =
              Done ["found k1: hello ,I am pasca"; "not found k1"] c.
Proof.
  split; [lia|]. split; [unfold int64_max; lia|]. split; [lia|]. split; [lia|].
  apply main_output; unfold int64_max; lia.
Defined.
